(** * Homework-Blockchain, Week 1: [keccak256.py]

    A shallow embedding of the script [src/Week 1/keccak256.py] and of the
    library calls it makes, together with the properties its specification
    states about it.

    The script is a straight line of effects:
<<
    print("Implementasi Keccak 256 di python\n")
    print("+++++++++++++++++++++++++++++++++++++")
    nama_ibu = input("Masukan Nama Ibu kandung: ")
    os.system('CLS')
    print("Nama Ibu kandung sebelum di hash: \n", nama_ibu)
    encoded = nama_ibu.encode()
    obj_encoded = sha3.keccak_256(encoded)
    print("Nama Ibu kandung setelah di hash: \n", obj_encoded.hexdigest())
>>
    Python values are modelled as follows: a [str] is a list of code points,
    a [bytes] object is a list of [Byte.byte], a 64-bit lane of the Keccak
    state is a [Z] kept below [2^64] by explicit masking.  The effects
    (standard input, standard output, the shell, uncaught exceptions) are
    threaded through a small state-and-exception monad. *)

From Stdlib Require Import ZArith List Lia Bool.
From Stdlib Require Import Strings.String Strings.Ascii Strings.Byte.
From stdpp Require Import base list.
Import ListNotations.

Local Open Scope Z_scope.

(** ** Bytes *)

Definition bytes := list byte.

Definition Z_of_byte (b : byte) : Z := Z.of_N (Byte.to_N b).

Definition byte_of_Z (z : Z) : byte :=
  match Byte.of_N (Z.to_N (Z.land z 255)) with
  | Some b => b
  | None => x00
  end.

(** ** The Keccak-256 primitive of the [sha3] package *)

Module Keccak.

(** The script imports [sha3] (the pysha3 package) and calls its
    [keccak_256] constructor and the [hexdigest] method of the object it
    returns.  The package is not part of the repository.  The specification
    describes the primitive as Keccak-256 of the SHA-3 family with the
    padding that predates the NIST standard, over an arbitrary byte
    sequence, with a fixed 32-byte output rendered as 64 lowercase
    hexadecimal characters.  That is the sponge construction over
    Keccak-f[1600] with rate 1088 bits (136 bytes), capacity 512 bits and the
    delimited suffix 0x01, which is what this module writes out: the five
    step mappings on a state of 25 lanes, lane (x, y) stored at index
    x + 5 * y, and a sponge that absorbs byte by byte. *)

Definition mask64 : Z := Z.ones 64.

Definition rate_in_bytes : nat := 136.
Definition digest_size : nat := 32.
Definition delimited_suffix : Z := 0x01.

(** Rotation of a 64-bit lane to the left. *)
Definition rol64 (a : Z) (n : Z) : Z :=
  Z.land (Z.lor (Z.shiftl a n) (Z.shiftr a (64 - n))) mask64.

Definition lanes := list Z.

Definition lane (A : lanes) (i : nat) : Z := A !!! i.

Definition rho_offsets : list Z :=
  [  0;  1; 62; 28; 27;
    36; 44;  6; 55; 20;
     3; 10; 43; 25; 39;
    41; 45; 15; 21;  8;
    18;  2; 61; 56; 14 ].

Definition round_constants : list Z :=
  [ 0x0000000000000001; 0x0000000000008082; 0x800000000000808A;
    0x8000000080008000; 0x000000000000808B; 0x0000000080000001;
    0x8000000080008081; 0x8000000000008009; 0x000000000000008A;
    0x0000000000000088; 0x0000000080008009; 0x000000008000000A;
    0x000000008000808B; 0x800000000000008B; 0x8000000000008089;
    0x8000000000008003; 0x8000000000008002; 0x8000000000000080;
    0x000000000000800A; 0x800000008000000A; 0x8000000080008081;
    0x8000000000008080; 0x0000000080000001; 0x8000000080008008 ].

(** theta: every lane is xored with the parities of two neighbouring
    columns. *)
Definition column (A : lanes) (x : nat) : Z :=
  Z.lxor (lane A x)
    (Z.lxor (lane A (x + 5))
       (Z.lxor (lane A (x + 10))
          (Z.lxor (lane A (x + 15)) (lane A (x + 20))))).

Definition theta_D (A : lanes) (x : nat) : Z :=
  Z.lxor (column A ((x + 4) mod 5)) (rol64 (column A ((x + 1) mod 5)) 1).

Definition theta (A : lanes) : lanes :=
  map (fun i => Z.lxor (lane A i) (theta_D A (i mod 5))) (seq 0 25).

(** rho and pi: lane (x, y) is rotated by its offset and moved to
    (y, 2x + 3y); read from the target, the lane at (X, Y) comes from
    ((X + 3Y) mod 5, X). *)
Definition rho_pi (A : lanes) : lanes :=
  map (fun j =>
         let X := (j mod 5)%nat in
         let Y := (j / 5)%nat in
         let src := (((X + 3 * Y) mod 5) + 5 * X)%nat in
         rol64 (lane A src) (rho_offsets !!! src))
      (seq 0 25).

(** chi: the only non-linear step, along rows. *)
Definition chi (B : lanes) : lanes :=
  map (fun i =>
         let x := (i mod 5)%nat in
         let row := (5 * (i / 5))%nat in
         Z.lxor (lane B i)
           (Z.land (Z.lxor (lane B (row + (x + 1) mod 5)) mask64)
                   (lane B (row + (x + 2) mod 5))))
      (seq 0 25).

(** iota: the round constant goes into lane (0, 0). *)
Definition iota (rc : Z) (A : lanes) : lanes :=
  alter (Z.lxor rc) 0%nat A.

Definition keccak_round (A : lanes) (rc : Z) : lanes :=
  iota rc (chi (rho_pi (theta A))).

(** Modelled from the spec: the permutation inside pysha3 is missing from
    the sources.  Keccak-f[1600]: the 24 rounds. *)
Definition keccak_f (A : lanes) : lanes :=
  fold_left keccak_round round_constants A.

(** The sponge: the state and the position of the next byte in the current
    block. *)
Record sponge : Type := Sponge {
  state : lanes;
  byteIOIndex : nat
}.

Definition initial : sponge := Sponge (replicate 25 0) 0.

(** Xor one byte into the state at byte position [i] (little-endian inside
    a lane). *)
Definition xor_byte (A : lanes) (i : nat) (b : Z) : lanes :=
  alter (Z.lxor (Z.shiftl b (8 * Z.of_nat (i mod 8)))) (i / 8)%nat A.

Definition absorb_byte (s : sponge) (b : byte) : sponge :=
  let A := xor_byte (state s) (byteIOIndex s) (Z_of_byte b) in
  if (S (byteIOIndex s) =? rate_in_bytes)%nat
  then Sponge (keccak_f A) 0
  else Sponge A (S (byteIOIndex s)).

Definition absorb (s : sponge) (data : bytes) : sponge :=
  fold_left absorb_byte data s.

(** Padding: the delimited suffix at the current position, the final bit of
    pad10*1 in the last byte of the block, then one permutation. *)
Definition absorb_last_bits (s : sponge) : lanes :=
  let A := xor_byte (state s) (byteIOIndex s) delimited_suffix in
  keccak_f (xor_byte A (rate_in_bytes - 1) 0x80).

Definition lane_byte (a : Z) (k : nat) : byte :=
  byte_of_Z (Z.shiftr a (8 * Z.of_nat k)).

(** The first [n] bytes of the state; [n] is at most the rate here, so one
    block is enough. *)
Definition squeeze (A : lanes) (n : nat) : bytes :=
  map (fun i => lane_byte (lane A (i / 8)) (i mod 8)) (seq 0 n).

(** Modelled from the spec: [sha3.keccak_256], of the pysha3 package, is
    missing from the sources.  [sha3.keccak_256(data)] is a fresh Keccak-256
    hash object that has absorbed [data]. *)
Definition keccak_256 (data : bytes) : sponge := absorb initial data.

(** Modelled from the spec: the [digest] method of the pysha3 hash object
    is missing from the sources.  It gives the fixed 32-byte Keccak-256
    output; it pads and permutes a copy of the state, so the object itself
    is unchanged. *)
Definition digest (obj : sponge) : bytes :=
  squeeze (absorb_last_bits obj) digest_size.

Definition hex_digits : list ascii :=
  list_ascii_of_string "0123456789abcdef".

Definition hex_digit (n : Z) : ascii :=
  nth (Z.to_nat n) hex_digits "0"%char.

Definition hex_of_byte (b : byte) : list ascii :=
  [ hex_digit (Z.shiftr (Z_of_byte b) 4); hex_digit (Z.land (Z_of_byte b) 15) ].

Definition hexlify (bs : bytes) : string :=
  string_of_list_ascii (flat_map hex_of_byte bs).

(** Modelled from the spec: the [hexdigest] method of the pysha3 hash object
    is missing from the sources.  It renders the 32-byte digest as 64
    lowercase hexadecimal characters. *)
Definition hexdigest (obj : sponge) : string := hexlify (digest obj).

End Keccak.

(** ** Python text *)

(** A [str] is a sequence of code points.  Python keeps them in the range
    0 .. 0x10FFFF, surrogates included. *)
Definition code_point := Z.
Definition str := list code_point.

Definition is_surrogate (ch : code_point) : bool :=
  (0xD800 <=? ch) && (ch <=? 0xDFFF).

Definition is_code_point (ch : code_point) : bool :=
  (0 <=? ch) && (ch <=? 0x10FFFF).

(** The text a [str] literal of the script denotes; the literals of the
    script are ASCII. *)
Definition lit (s : string) : str :=
  map (fun a => Z.of_N (N_of_ascii a)) (list_ascii_of_string s).

Definition LF : code_point := 10.

(** The escape [\n] of a Python literal. *)
Definition nl : string := String (ascii_of_nat 10) EmptyString.

(** ** [str.encode()] *)

(** [str.encode()] with its defaults: the UTF-8 codec with the [strict]
    error handler.  The branches are those of the encoder: one byte below
    0x80, two below 0x800, an error for a surrogate, three below 0x10000 and
    four otherwise.  A value outside the range of code points cannot occur
    in a [str]; the model reports it as an encoding error as well. *)
Definition encode_char (ch : code_point) : option bytes :=
  if negb (is_code_point ch) then None
  else if ch <? 0x80 then
    Some [ byte_of_Z ch ]
  else if ch <? 0x800 then
    Some [ byte_of_Z (Z.lor 0xC0 (Z.shiftr ch 6));
           byte_of_Z (Z.lor 0x80 (Z.land ch 0x3F)) ]
  else if is_surrogate ch then None
  else if ch <? 0x10000 then
    Some [ byte_of_Z (Z.lor 0xE0 (Z.shiftr ch 12));
           byte_of_Z (Z.lor 0x80 (Z.land (Z.shiftr ch 6) 0x3F));
           byte_of_Z (Z.lor 0x80 (Z.land ch 0x3F)) ]
  else
    Some [ byte_of_Z (Z.lor 0xF0 (Z.shiftr ch 18));
           byte_of_Z (Z.lor 0x80 (Z.land (Z.shiftr ch 12) 0x3F));
           byte_of_Z (Z.lor 0x80 (Z.land (Z.shiftr ch 6) 0x3F));
           byte_of_Z (Z.lor 0x80 (Z.land ch 0x3F)) ].

Fixpoint encode (s : str) : option bytes :=
  match s with
  | [] => Some []
  | ch :: rest =>
      match encode_char ch, encode rest with
      | Some b, Some bs => Some (b ++ bs)
      | _, _ => None
      end
  end.

(** ** The effects of the script *)

Inductive exn : Type :=
  | EOFError
  | UnicodeEncodeError.

(** What the process does to the outside, in order: text written to
    standard output, and commands handed to the shell. *)
Inductive event : Type :=
  | Stdout (text : str)
  | System (command : string).

(** The outside of the process: the characters still unread on standard
    input, the exit status the shell gives for a command, and the events so
    far. *)
Record world : Type := World {
  stdin : str;
  shell : string -> Z;
  trace : list event
}.

Definition M (A : Type) : Type := world -> (exn + A) * world.

Definition ret {A} (a : A) : M A := fun w => (inr a, w).

Definition bind {A B} (k : A -> M B) (m : M A) : M B :=
  fun w =>
    match m w with
    | (inl e, w') => (inl e, w')
    | (inr a, w') => k a w'
    end.

#[global] Instance M_ret : MRet M := @ret.
#[global] Instance M_bind : MBind M := @bind.

Definition raise {A} (e : exn) : M A := fun w => (inl e, w).

Definition emit (e : event) : M unit :=
  fun w => (inr tt, World (stdin w) (shell w) (trace w ++ [e])).

(** [print] of several arguments: the arguments separated by one space,
    then a newline. *)
Fixpoint join (sep : str) (args : list str) : str :=
  match args with
  | [] => []
  | [a] => a
  | a :: rest => a ++ sep ++ join sep rest
  end.

Definition print (args : list str) : M unit :=
  emit (Stdout (join (lit " ") args ++ [LF])).

(** The characters of the next line of [s], without its newline, and what
    follows the line; [None] when nothing is left to read. *)
Fixpoint read_line (s : str) : option (str * str) :=
  match s with
  | [] => None
  | ch :: rest =>
      if ch =? LF then Some ([], rest)
      else match read_line rest with
           | Some (line, rest') => Some (ch :: line, rest')
           | None => Some ([ch], [])
           end
  end.

(** [input(prompt)] on a standard input that is an open, redirected stream
    of decodable text: the prompt goes to standard output, one line is read
    and returned without its trailing newline; [EOFError] at end of input.
    The other surroundings of the script (a closed standard input, bytes
    that are not text, a terminal, a standard output that cannot encode a
    character) are those of [Process] below. *)
Definition input (prompt : str) : M str :=
  emit (Stdout prompt) ;;
  (fun w =>
     match read_line (stdin w) with
     | None => (inl EOFError, w)
     | Some (line, rest) => (inr line, World rest (shell w) (trace w))
     end) : M str.

(** [os.system(command)]: runs the command in a subshell and returns its
    exit status; a failing command is a status, not an exception. *)
Definition os_system (command : string) : M Z :=
  emit (System command) ;;
  (fun w => (inr (shell w command), w)) : M Z.

(** [s.encode()] as a statement: an unencodable string raises. *)
Definition str_encode (s : str) : M bytes :=
  match encode s with
  | Some b => mret b
  | None => raise UnicodeEncodeError
  end.

(** ** The script *)

(** The names the script binds, as they stand when it ends. *)
Record globals : Type := Globals {
  nama_ibu : str;
  encoded : bytes;
  obj_encoded : Keccak.sponge
}.

Definition sebelum : string := "Nama Ibu kandung sebelum di hash: " ++ nl.
Definition setelah : string := "Nama Ibu kandung setelah di hash: " ++ nl.

Definition main : M globals :=
  print [lit ("Implementasi Keccak 256 di python" ++ nl)] ;;
  print [lit "+++++++++++++++++++++++++++++++++++++"] ;;
  nama_ibu ← input (lit "Masukan Nama Ibu kandung: ") ;
  os_system "CLS" ;;
  print [lit sebelum; nama_ibu] ;;
  encoded ← str_encode nama_ibu ;
  let obj_encoded := Keccak.keccak_256 encoded in
  print [lit setelah; lit (Keccak.hexdigest obj_encoded)] ;;
  mret (Globals nama_ibu encoded obj_encoded).

(** One run of the script, from a standard input and a shell. *)
Definition run (text : str) (sh : string -> Z) : (exn + globals) * world :=
  main (World text sh []).

(** The exit status of the interpreter: 0 when the script runs to its end,
    1 when an exception is left uncaught. *)
Definition exit_status {A} (r : exn + A) : Z :=
  match r with
  | inl _ => 1
  | inr _ => 0
  end.

(** ** The script as a process *)

Module Process.

(** The model above takes standard input to be an open, redirected stream
    of decodable text and standard output to accept every character.  This
    module keeps the statements of the script and lets the surroundings
    vary: what standard input is like when the script reads its line,
    whether the script talks to a terminal, and which characters the codec
    of standard output can encode.  How [input] cuts a line out of what is
    typed or piped (buffering, the line discipline of a terminal) is below
    this model: the condition says what [input] finds. *)

Inductive exn : Type :=
  | RuntimeError
  | EOFError
  | UnicodeDecodeError
  | UnicodeEncodeError.

Inductive stdin_condition : Type :=
  | Lost                (* [sys.stdin] is [None]: descriptor 0 was closed *)
  | AtEOF               (* open, and nothing left to read *)
  | Undecodable         (* the bytes read are not text in its encoding *)
  | Line (name : str).  (* a line is there; [name] is what [input] returns *)

Inductive event : Type :=
  | Stdout (text : str)
  | Stderr (text : str)
  | System (command : string).

Record environment : Type := Environment {
  stdin_is : stdin_condition;
  interactive : bool;
  stdout_encodes : code_point -> bool;
  shell : string -> Z
}.

Definition M (A : Type) : Type :=
  environment -> list event -> (exn + A) * list event.

Definition ret {A} (a : A) : M A := fun _ t => (inr a, t).

Definition bind {A B} (k : A -> M B) (m : M A) : M B :=
  fun env t =>
    match m env t with
    | (inl e, t') => (inl e, t')
    | (inr a, t') => k a env t'
    end.

#[global] Instance M_ret : MRet M := @ret.
#[global] Instance M_bind : MBind M := @bind.

(** [sys.stdout.write(text)]: the text is encoded as a whole with the
    [strict] error handler, so either all of it is written or none. *)
Definition write (text : str) : M unit :=
  fun env t =>
    if forallb (stdout_encodes env) text
    then (inr tt, t ++ [Stdout text])
    else (inl UnicodeEncodeError, t).

(** [print]: one write for each argument, one for each separator between
    two arguments and one for the final newline, in that order; what was
    written before a failing write stays written. *)
Fixpoint write_args (args : list str) : M unit :=
  match args with
  | [] => mret tt
  | [a] => write a
  | a :: rest => write a ;; write (lit " ") ;; write_args rest
  end.

Definition print (args : list str) : M unit :=
  write_args args ;; write [LF].

Definition raise {A} (e : exn) : M A := fun _ t => (inl e, t).

(** The prompt of [input] is encoded for standard output; it goes to
    standard error when the script talks to a terminal, to standard output
    when it does not. *)
Definition show_prompt (prompt : str) : M unit :=
  fun env t =>
    if forallb (stdout_encodes env) prompt
    then (inr tt,
          t ++ [if interactive env then Stderr prompt else Stdout prompt])
    else (inl UnicodeEncodeError, t).

(** [input(prompt)].  Without a standard input it raises [RuntimeError]
    before anything is written.  Otherwise the prompt is shown and the line
    is read: [EOFError] at end of input, [UnicodeDecodeError] when the
    bytes are not text. *)
Definition input (prompt : str) : M str :=
  fun env t =>
    match stdin_is env with
    | Lost => (inl RuntimeError, t)
    | AtEOF => (show_prompt prompt ;; raise EOFError) env t
    | Undecodable => (show_prompt prompt ;; raise UnicodeDecodeError) env t
    | Line name => (show_prompt prompt ;; mret name) env t
    end.

Definition os_system (command : string) : M Z :=
  fun env t => (inr (shell env command), t ++ [System command]).

Definition str_encode (s : str) : M bytes :=
  fun _ t =>
    match encode s with
    | Some b => (inr b, t)
    | None => (inl UnicodeEncodeError, t)
    end.

Definition main : M globals :=
  print [lit ("Implementasi Keccak 256 di python" ++ nl)] ;;
  print [lit "+++++++++++++++++++++++++++++++++++++"] ;;
  nama_ibu ← input (lit "Masukan Nama Ibu kandung: ") ;
  os_system "CLS" ;;
  print [lit sebelum; nama_ibu] ;;
  encoded ← str_encode nama_ibu ;
  let obj_encoded := Keccak.keccak_256 encoded in
  print [lit setelah; lit (Keccak.hexdigest obj_encoded)] ;;
  mret (Globals nama_ibu encoded obj_encoded).

Definition run (env : environment) : (exn + globals) * list event :=
  main env [].

Definition exit_status {A} (r : exn + A) : Z :=
  match r with
  | inl _ => 1
  | inr _ => 0
  end.

(** What has been written on standard output, and handed to the shell. *)
Definition stdout_text (t : list event) : str :=
  flat_map (fun e => match e with Stdout text => text | _ => [] end) t.



(** The codec of standard output encodes ASCII, as UTF-8, Latin-1, the
    Windows code pages and ASCII itself do. *)
Definition encodes_ascii (env : environment) : Prop :=
  forall ch, 0 <= ch < 128 -> stdout_encodes env ch = true.


Definition is_ascii (ch : code_point) : bool := (0 <=? ch) && (ch <? 128).


Definition prompt_text : str := lit "Masukan Nama Ibu kandung: ".

End Process.

(** The events of the first model that write on standard output, as one
    text, and its exceptions among those of the process. *)
Definition printed (t : list event) : str :=
  flat_map (fun e => match e with Stdout text => text | System _ => [] end) t.

Definition as_process_exn (e : exn) : Process.exn :=
  match e with
  | EOFError => Process.EOFError
  | UnicodeEncodeError => Process.UnicodeEncodeError
  end.

(** The surroundings the first model stands for: a redirected standard
    input holding [text], a standard output that encodes everything. *)
Definition redirected (text : str) (sh : string -> Z) : Process.environment :=
  Process.Environment
    (match read_line text with
     | None => Process.AtEOF
     | Some (line, _) => Process.Line line
     end)
    false (fun _ => true) sh.

(** ** What the statements below talk about *)

(** The three lines written before the name is read. *)
Definition banner : list event :=
  [ Stdout (lit ("Implementasi Keccak 256 di python" ++ nl) ++ [LF]);
    Stdout (lit "+++++++++++++++++++++++++++++++++++++" ++ [LF]);
    Stdout (lit "Masukan Nama Ibu kandung: ") ].

(** What the third [print] writes for the name [s], and what the fourth
    writes for the hexadecimal digest [d]. *)
Definition echo_line (s : str) : str :=
  lit sebelum ++ lit " " ++ s ++ [LF].

Definition digest_line (d : string) : str :=
  lit setelah ++ lit " " ++ lit d ++ [LF].

Definition is_lower_hex (a : ascii) : bool :=
  let n := nat_of_ascii a in
  ((48 <=? n) && (n <=? 57) || (97 <=? n) && (n <=? 102))%nat.

(** Text that is made of Unicode scalar values only: code points that are
    not surrogates. *)
Definition is_scalar_value (ch : code_point) : bool :=
  is_code_point ch && negb (is_surrogate ch).

Definition valid_text (s : str) : Prop :=
  Forall (fun ch => is_scalar_value ch = true) s.

(** [a] is written, or run, before [b] in the trace [t]. *)
Definition occurs_before (a b : event) (t : list event) : Prop :=
  exists i j : nat, t !! i = Some a /\ t !! j = Some b /\ (i < j)%nat.

(** UTF-8 as RFC 3629 tabulates it, on byte values, by division instead of
    shifts and masks:
<<
    0000 0000-0000 007F | 0xxxxxxx
    0000 0080-0000 07FF | 110xxxxx 10xxxxxx
    0000 0800-0000 FFFF | 1110xxxx 10xxxxxx 10xxxxxx
    0001 0000-0010 FFFF | 11110xxx 10xxxxxx 10xxxxxx 10xxxxxx
>>
    with the surrogates D800-DFFF excluded. *)
Definition utf8_rfc3629_char (ch : Z) : option (list Z) :=
  if (0 <=? ch) && (ch <=? 0x7F) then Some [ch]
  else if (0x80 <=? ch) && (ch <=? 0x7FF) then
    Some [192 + ch / 64; 128 + ch mod 64]
  else if (0xD800 <=? ch) && (ch <=? 0xDFFF) then None
  else if (0x800 <=? ch) && (ch <=? 0xFFFF) then
    Some [224 + ch / 4096; 128 + (ch / 64) mod 64; 128 + ch mod 64]
  else if (0x10000 <=? ch) && (ch <=? 0x10FFFF) then
    Some [240 + ch / 262144; 128 + (ch / 4096) mod 64;
          128 + (ch / 64) mod 64; 128 + ch mod 64]
  else None.

Fixpoint utf8_rfc3629 (s : list Z) : option (list Z) :=
  match s with
  | [] => Some []
  | ch :: rest =>
      match utf8_rfc3629_char ch, utf8_rfc3629 rest with
      | Some b, Some bs => Some (b ++ bs)
      | _, _ => None
      end
  end.

(** Lines 11 to 13 of the script as a function of the name: the
    hexadecimal digest of its encoding, when it can be encoded. *)
Definition digest_hex (s : str) : option string :=
  option_map (fun b => Keccak.hexdigest (Keccak.keccak_256 b)) (encode s).

(** The clearing of the screen lies between the two outputs [echo] and
    [dig] of the trace [t]. *)
Definition clear_between (echo dig : event) (t : list event) : Prop :=
  occurs_before echo (System "CLS") t /\ occurs_before (System "CLS") dig t.


(** The value of a hexadecimal digit, and the byte two digits spell: the
    reading that undoes [hex_of_byte]. *)
Definition hex_value (a : ascii) : Z :=
  let n := Z.of_nat (nat_of_ascii a) in
  if n <? 58 then n - 48 else n - 87.

Definition byte_of_hex (hi lo : ascii) : byte :=
  byte_of_Z (16 * hex_value hi + hex_value lo).

Fixpoint unhexlify (l : list ascii) : bytes :=
  match l with
  | hi :: lo :: rest => byte_of_hex hi lo :: unhexlify rest
  | _ => []
  end.

(** Unfolds the monad and the effects of the script, and nothing of the
    values they carry. *)
Ltac run_steps :=
  cbv beta iota zeta delta
    [run main input os_system str_encode print emit raise
     mbind mret M_bind M_ret bind ret stdin shell trace
     banner echo_line digest_line join app fst snd].

Ltac process_steps :=
  cbv beta iota zeta delta
    [Process.run Process.main Process.print Process.write_args Process.write
     Process.input Process.show_prompt Process.raise Process.os_system
     Process.str_encode mbind mret Process.M_bind Process.M_ret Process.bind
     Process.ret app fst snd].

(** ** The shape of a digest *)

Section HexShape.

Import Keccak.

Lemma hex_digit_lower (n : Z) : is_lower_hex (hex_digit n) = true.
Proof.
  unfold hex_digit.
  generalize (Z.to_nat n); intros k.
  do 16 (destruct k as [|k]; [reflexivity|]).
  destruct k; reflexivity.
Qed.

Lemma length_hex_chars (bs : bytes) :
  length (flat_map hex_of_byte bs) = (2 * length bs)%nat.
Proof.
  induction bs as [|b bs IH]; simpl; [reflexivity|].
  rewrite IH; lia.
Qed.

Lemma string_length_of_list (l : list ascii) :
  String.length (string_of_list_ascii l) = length l.
Proof. induction l as [|a l IH]; simpl; congruence. Qed.

Lemma length_hexlify (bs : bytes) :
  String.length (hexlify bs) = (2 * length bs)%nat.
Proof. unfold hexlify. rewrite string_length_of_list. apply length_hex_chars. Qed.

Lemma hexlify_lower (bs : bytes) :
  forallb is_lower_hex (list_ascii_of_string (hexlify bs)) = true.
Proof.
  unfold hexlify. rewrite list_ascii_of_string_of_list_ascii.
  induction bs as [|b bs IH]; simpl; [reflexivity|].
  rewrite !hex_digit_lower, IH. reflexivity.
Qed.

Lemma length_squeeze (A : lanes) (n : nat) : length (squeeze A n) = n.
Proof. unfold squeeze. rewrite length_map. apply length_seq. Qed.

Lemma length_digest (obj : sponge) : length (digest obj) = 32%nat.
Proof. apply length_squeeze. Qed.

Lemma hexdigest_shape (obj : sponge) :
  String.length (hexdigest obj) = 64%nat /\
  forallb is_lower_hex (list_ascii_of_string (hexdigest obj)) = true.
Proof.
  split.
  - unfold hexdigest. rewrite length_hexlify, length_digest. reflexivity.
  - apply hexlify_lower.
Qed.

End HexShape.

(** ** Running the script *)

Section Run.

Variables (text : str) (sh : string -> Z).

Lemma run_eof :
  read_line text = None ->
  run text sh = (inl EOFError, World text sh banner).
Proof.
  intros H. run_steps. rewrite H. reflexivity.
Qed.

Lemma run_unencodable (line rest : str) :
  read_line text = Some (line, rest) ->
  encode line = None ->
  run text sh =
    (inl UnicodeEncodeError,
     World rest sh (banner ++ [System "CLS"; Stdout (echo_line line)])).
Proof.
  intros H E. run_steps. rewrite H. run_steps. rewrite E. reflexivity.
Qed.

Lemma run_encodable (line rest : str) (b : bytes) :
  read_line text = Some (line, rest) ->
  encode line = Some b ->
  run text sh =
    (inr (Globals line b (Keccak.keccak_256 b)),
     World rest sh
       (banner ++
        [System "CLS"; Stdout (echo_line line);
         Stdout (digest_line (Keccak.hexdigest (Keccak.keccak_256 b)))])).
Proof.
  intros H E. run_steps. rewrite H. run_steps. rewrite E. reflexivity.
Qed.

End Run.

(** ** Reading a line *)

Lemma read_line_None (s : str) : read_line s = None <-> s = [].
Proof.
  destruct s as [|ch rest]; simpl; [tauto|].
  split; [|discriminate].
  destruct (ch =? LF); [discriminate|].
  destruct (read_line rest) as [[line rest']|]; discriminate.
Qed.

(** The line that [read_line] gives has no newline in it, and the input is
    that line, its newline and the rest, or the line alone when the input
    ends without a newline. *)
Lemma read_line_Some (s line rest : str) :
  read_line s = Some (line, rest) ->
  ~ In LF line /\ (s = line ++ LF :: rest \/ (s = line /\ rest = [])).
Proof.
  revert line rest.
  induction s as [|ch s IH]; intros line rest H; simpl in H; [discriminate|].
  destruct (Z.eqb_spec ch LF) as [->|Hne].
  - injection H as <- <-. split; [intros []|left; reflexivity].
  - destruct (read_line s) as [[line' rest']|] eqn:E.
    + injection H as <- <-.
      destruct (IH _ _ eq_refl) as [Hin Hs]. split.
      * intros [Heq|Hin']; [congruence|tauto].
      * destruct Hs as [->|[-> ->]]; [left|right]; auto.
    + injection H as <- <-.
      apply read_line_None in E. subst s. split.
      * intros [Heq|[]]; congruence.
      * right; auto.
Qed.

Lemma read_line_app (line rest : str) :
  ~ In LF line -> read_line (line ++ LF :: rest) = Some (line, rest).
Proof.
  induction line as [|ch line IH]; intros Hin; simpl.
  - reflexivity.
  - destruct (Z.eqb_spec ch LF) as [->|Hne].
    + exfalso. apply Hin. left; reflexivity.
    + rewrite IH; [reflexivity|]. intros H. apply Hin. right; exact H.
Qed.

(** ** Encoding *)

Lemma encode_char_Some (ch : code_point) :
  is_scalar_value ch = true -> exists b, encode_char ch = Some b.
Proof.
  unfold is_scalar_value, encode_char. intros H.
  apply andb_prop in H as [Hcp Hs]. rewrite Hcp. simpl.
  apply negb_true_iff in Hs. rewrite Hs.
  destruct (ch <? 128); [eauto|].
  destruct (ch <? 2048); [eauto|].
  destruct (ch <? 65536); eauto.
Qed.

Lemma encode_char_None (ch : code_point) :
  is_scalar_value ch = false -> encode_char ch = None.
Proof.
  unfold is_scalar_value, encode_char, is_code_point, is_surrogate.
  intros H.
  destruct (Z.leb_spec 0 ch), (Z.leb_spec ch 1114111); simpl in *;
    try reflexivity.
  destruct (Z.leb_spec 55296 ch), (Z.leb_spec ch 57343); simpl in *;
    try discriminate.
  destruct (Z.ltb_spec ch 128); [lia|].
  destruct (Z.ltb_spec ch 2048); [lia|]. reflexivity.
Qed.

(** Encoding succeeds exactly on text made of scalar values. *)
Lemma encode_valid_text (s : str) :
  valid_text s <-> exists b, encode s = Some b.
Proof.
  unfold valid_text. induction s as [|ch s IH]; simpl.
  - split; [eauto|constructor].
  - split.
    + intros H. inversion H as [|? ? Hch Hs]; subst.
      destruct (encode_char_Some ch Hch) as [b ->].
      apply IH in Hs as [bs ->]. eauto.
    + intros [b H].
      destruct (is_scalar_value ch) eqn:Hch.
      * constructor; [exact Hch|]. apply IH.
        destruct (encode_char ch); [|discriminate].
        destruct (encode s); [eauto|discriminate].
      * rewrite (encode_char_None ch Hch) in H. discriminate.
Qed.

(** A property checked on every number below [n] holds of every number
    below [n]. *)
Lemma Z_forall_below (P : Z -> bool) (n : nat) :
  forallb P (map Z.of_nat (seq 0 n)) = true ->
  forall z, 0 <= z < Z.of_nat n -> P z = true.
Proof.
  intros H z Hz.
  rewrite forallb_forall in H. apply H.
  apply in_map_iff. exists (Z.to_nat z). split; [lia|].
  apply in_seq. lia.
Qed.

Lemma Z_of_byte_of_Z (z : Z) : 0 <= z < 256 -> Z_of_byte (byte_of_Z z) = z.
Proof.
  intros Hz. apply Z.eqb_eq.
  apply (Z_forall_below (fun z => Z_of_byte (byte_of_Z z) =? z) 256);
    [vm_compute; reflexivity|lia].
Qed.

Lemma lor_lead (hi : Z) (k : nat) (q : Z) :
  forallb (fun q => Z.lor hi q =? hi + q) (map Z.of_nat (seq 0 k)) = true ->
  0 <= q < Z.of_nat k -> Z.lor hi q = hi + q.
Proof.
  intros H Hq. apply Z.eqb_eq.
  exact (Z_forall_below (fun q => Z.lor hi q =? hi + q) k H q Hq).
Qed.

Lemma lor_continuation (r : Z) : 0 <= r < 64 -> Z.lor 0x80 r = 128 + r.
Proof. apply (lor_lead 128 64). vm_compute; reflexivity. Qed.

Lemma land_6_bits (a : Z) : Z.land a 0x3F = a mod 64.
Proof. change 0x3F with (Z.ones 6). apply Z.land_ones. lia. Qed.

Lemma shiftr_div (a : Z) (n : Z) : 0 <= n -> Z.shiftr a n = a / 2 ^ n.
Proof. apply Z.shiftr_div_pow2. Qed.

(** The encoder of [str.encode()] computes UTF-8 as RFC 3629 tabulates
    it. *)
Lemma encode_char_rfc3629 (ch : code_point) :
  option_map (map Z_of_byte) (encode_char ch) = utf8_rfc3629_char ch.
Proof.
  unfold encode_char, utf8_rfc3629_char, is_code_point, is_surrogate.
  destruct (Z.leb_spec 0 ch), (Z.leb_spec ch 0x10FFFF); simpl negb; cbv iota;
    cycle 1.
  - repeat (match goal with
            | |- context [?a <=? ?b] => destruct (Z.leb_spec a b); try lia
            end; simpl andb; cbv iota); reflexivity.
  - repeat (match goal with
            | |- context [?a <=? ?b] => destruct (Z.leb_spec a b); try lia
            end; simpl andb; cbv iota); reflexivity.
  - repeat (match goal with
            | |- context [?a <=? ?b] => destruct (Z.leb_spec a b); try lia
            end; simpl andb; cbv iota); reflexivity.
  - rewrite !land_6_bits, !shiftr_div by lia.
    change (2 ^ 6) with 64; change (2 ^ 12) with 4096;
      change (2 ^ 18) with 262144.
    destruct (Z.ltb_spec ch 0x80).
    { destruct (Z.leb_spec ch 0x7F); [|lia]. simpl.
      rewrite Z_of_byte_of_Z by lia. reflexivity. }
    destruct (Z.leb_spec ch 0x7F); [lia|]. simpl andb. cbv iota.
    destruct (Z.leb_spec 0x80 ch); [|lia].
    destruct (Z.ltb_spec ch 0x800).
    { destruct (Z.leb_spec ch 0x7FF); [|lia]. simpl.
      rewrite lor_continuation by (apply Z.mod_pos_bound; lia).
      rewrite (lor_lead 192 32) by
        first [vm_compute; reflexivity
              | split; [apply Z.div_pos; lia
                       |apply Z.div_lt_upper_bound; simpl; lia]].
      rewrite !Z_of_byte_of_Z; [reflexivity| |].
      - pose proof (Z.mod_pos_bound ch 64). lia.
      - assert (0 <= ch / 64 < 32); [|lia].
        split; [apply Z.div_pos; lia|apply Z.div_lt_upper_bound; lia]. }
    destruct (Z.leb_spec ch 0x7FF); [lia|]. simpl andb. cbv iota.
    destruct ((0xD800 <=? ch) && (ch <=? 0xDFFF)); [reflexivity|].
    destruct (Z.leb_spec 0x800 ch); [|lia].
    destruct (Z.ltb_spec ch 0x10000).
    + destruct (Z.leb_spec ch 0xFFFF); [|lia]. simpl.
      assert (0 <= ch / 4096 < 16)
        by (split; [apply Z.div_pos; lia|apply Z.div_lt_upper_bound; lia]).
      pose proof (Z.mod_pos_bound (ch / 64) 64).
      pose proof (Z.mod_pos_bound ch 64).
      rewrite !lor_continuation by lia.
      rewrite (fun q => lor_lead 224 16 q eq_refl) by lia.
      rewrite !Z_of_byte_of_Z by lia. reflexivity.
    + destruct (Z.leb_spec ch 0xFFFF); [lia|]. simpl andb. cbv iota.
      destruct (Z.leb_spec 0x10000 ch); [|lia]. simpl.
      assert (0 <= ch / 262144 < 8)
        by (split; [apply Z.div_pos; lia|apply Z.div_lt_upper_bound; lia]).
      pose proof (Z.mod_pos_bound (ch / 4096) 64).
      pose proof (Z.mod_pos_bound (ch / 64) 64).
      pose proof (Z.mod_pos_bound ch 64).
      rewrite !lor_continuation by lia.
      rewrite (fun q => lor_lead 240 8 q eq_refl) by lia.
      rewrite !Z_of_byte_of_Z by lia. reflexivity.
Qed.

Lemma encode_rfc3629 (s : str) :
  option_map (map Z_of_byte) (encode s) = utf8_rfc3629 s.
Proof.
  induction s as [|ch s IH]; simpl; [reflexivity|].
  rewrite <- IH, <- encode_char_rfc3629.
  destruct (encode_char ch) as [b|]; simpl; [|reflexivity].
  destruct (encode s) as [bs|]; simpl; [|reflexivity].
  rewrite map_app. reflexivity.
Qed.

(** ** Runs that end normally *)

Lemma run_inr (text : str) (sh : string -> Z) (g : globals) (w : world) :
  run text sh = (inr g, w) ->
  exists line rest b,
    read_line text = Some (line, rest) /\
    encode line = Some b /\
    g = Globals line b (Keccak.keccak_256 b) /\
    w = World rest sh
          (banner ++
           [System "CLS"; Stdout (echo_line line);
            Stdout (digest_line (Keccak.hexdigest (Keccak.keccak_256 b)))]).
Proof.
  intros H.
  destruct (read_line text) as [[line rest]|] eqn:R.
  - destruct (encode line) as [b|] eqn:E.
    + rewrite (run_encodable text sh line rest b R E) in H.
      injection H as <- <-. exists line, rest, b. auto.
    + rewrite (run_unencodable text sh line rest R E) in H. discriminate.
  - rewrite (run_eof text sh R) in H. discriminate.
Qed.

Lemma last_digest_line (pre : list event) (a b c : event) :
  last (pre ++ [a; b; c]) = Some c.
Proof.
  change (pre ++ [a; b; c]) with (pre ++ [a; b] ++ [c]).
  rewrite app_assoc. apply last_snoc.
Qed.

(** ** Test vectors of the hash *)

Lemma keccak_256_empty :
  Keccak.hexdigest (Keccak.keccak_256 []) =
  "c5d2460186f7233c927e7db2dcc703c0e500b653ca82273b7bfad8045d85a470"%string.
Proof. vm_compute. reflexivity. Qed.

Lemma encode_abc : encode (lit "abc") = Some [x61; x62; x63].
Proof. vm_compute. reflexivity. Qed.

Lemma keccak_256_abc :
  Keccak.hexdigest (Keccak.keccak_256 [x61; x62; x63]) =
  "4e03657aea45a94fc7d47ba826c8d667c0d1e6e33a64a036ec44f58fa12d6c45"%string.
Proof. vm_compute. reflexivity. Qed.

(** Two short names one character apart, as a test would compare them.
    This is one pair; whether every such pair is told apart is the collision
    resistance of the hash, which no computation settles. *)
Example abc_abd_differ : digest_hex (lit "abc") <> digest_hex (lit "abd").
Proof. vm_compute. discriminate. Qed.

Lemma no_newline_abc : ~ In LF (lit "abc").
Proof. vm_compute. intros [H|[H|[H|[]]]]; discriminate. Qed.

(** ** The claims of the specification *)

Section Claims.

Import Keccak.

(** C1.  The digest has the same shape whatever is hashed: for every byte
    sequence, of any length, the empty one included, [hexdigest] gives 64
    characters, all of them lowercase hexadecimal digits, and they are the
    hexadecimal rendering of the 32 bytes of the Keccak-256 output.  Every
    run of the script that reaches its last line writes, as the last thing
    on standard output, that digest of the encoded name; and every name
    made of Unicode characters is one for which the script gets there. *)
Theorem printed_digest_shape :
  (forall data : bytes,
     let d := hexdigest (keccak_256 data) in
     String.length d = 64%nat /\
     forallb is_lower_hex (list_ascii_of_string d) = true /\
     d = hexlify (digest (keccak_256 data)) /\
     length (digest (keccak_256 data)) = 32%nat) /\
  (forall text sh g w,
     run text sh = (inr g, w) ->
     obj_encoded g = keccak_256 (encoded g) /\
     last (trace w) =
       Some (Stdout (digest_line (hexdigest (keccak_256 (encoded g)))))) /\
  (forall line rest sh,
     valid_text line -> ~ In LF line ->
     exists g w, run (line ++ LF :: rest) sh = (inr g, w) /\ nama_ibu g = line).
Proof.
  split; [|split].
  - intros data d. subst d.
    destruct (hexdigest_shape (keccak_256 data)) as [Hlen Hhex].
    repeat split; auto using length_digest.
  - intros text sh g w H.
    destruct (run_inr _ _ _ _ H) as (line & rest & b & _ & _ & -> & ->).
    split; [reflexivity|]. cbn [trace encoded]. apply last_digest_line.
  - intros line rest sh Hv Hn.
    apply encode_valid_text in Hv as [b E].
    eexists _, _. split.
    + exact (run_encodable _ sh line rest b (read_line_app line rest Hn) E).
    + reflexivity.
Qed.

(** The empty name, entered as an empty line. *)
Lemma printed_digest_shape_witness :
  run [LF] (fun _ => 0) =
    (inr (Globals [] [] (keccak_256 [])), snd (run [LF] (fun _ => 0))) /\
  last (trace (snd (run [LF] (fun _ => 0)))) =
    Some (Stdout (digest_line (hexdigest (keccak_256 [])))).
Proof.
  assert (H : run [LF] (fun _ => 0) =
              (inr (Globals [] [] (keccak_256 [])), snd (run [LF] (fun _ => 0))))
    by (vm_compute; reflexivity).
  split; [exact H|].
  exact (proj2 (proj1 (proj2 printed_digest_shape) _ _ _ _ H)).
Defined.

(** C2, as the specification words it: the digest of the empty string would
    be a string of 63 characters.  It is not. *)
Lemma empty_digest_is_not_63_chars :
  digest_hex [] <>
  Some "c5d2460186f7233c927e7db2dcc703c0e500b653ca82273b7bfad8045d85a47"%string.
Proof. vm_compute. discriminate. Qed.

(** C2, amended.  The UTF-8 encoding of the empty string is the empty byte
    sequence, its Keccak-256 digest in hexadecimal is
    c5d2460186f7233c927e7db2dcc703c0e500b653ca82273b7bfad8045d85a470 (the
    digest of the specification with its last character restored), and
    that is what the script prints last when the user enters an empty
    line. *)
Theorem empty_line_digest :
  encode [] = Some [] /\
  digest_hex [] =
    Some "c5d2460186f7233c927e7db2dcc703c0e500b653ca82273b7bfad8045d85a470"%string /\
  forall rest sh,
    run (LF :: rest) sh =
      (inr (Globals [] [] (keccak_256 [])),
       World rest sh
         (banner ++
          [System "CLS"; Stdout (echo_line []);
           Stdout (digest_line
             "c5d2460186f7233c927e7db2dcc703c0e500b653ca82273b7bfad8045d85a470")])).
Proof.
  split; [reflexivity|split].
  - unfold digest_hex. cbn [encode option_map]. rewrite keccak_256_empty.
    reflexivity.
  - intros rest sh. rewrite <- keccak_256_empty.
    apply run_encodable; reflexivity.
Qed.

(** C3.  The UTF-8 encoding of "abc" is the three bytes 61 62 63, their
    Keccak-256 digest in hexadecimal is
    4e03657aea45a94fc7d47ba826c8d667c0d1e6e33a64a036ec44f58fa12d6c45, and
    that is what the script prints last when the user enters the line
    abc. *)
Theorem abc_line_digest :
  encode (lit "abc") = Some [x61; x62; x63] /\
  digest_hex (lit "abc") =
    Some "4e03657aea45a94fc7d47ba826c8d667c0d1e6e33a64a036ec44f58fa12d6c45"%string /\
  forall rest sh,
    run (lit "abc" ++ LF :: rest) sh =
      (inr (Globals (lit "abc") [x61; x62; x63] (keccak_256 [x61; x62; x63])),
       World rest sh
         (banner ++
          [System "CLS"; Stdout (echo_line (lit "abc"));
           Stdout (digest_line
             "4e03657aea45a94fc7d47ba826c8d667c0d1e6e33a64a036ec44f58fa12d6c45")])).
Proof.
  split; [exact encode_abc|split].
  - unfold digest_hex. rewrite encode_abc. cbn [option_map].
    rewrite keccak_256_abc. reflexivity.
  - intros rest sh. rewrite <- keccak_256_abc.
    apply run_encodable; [|exact encode_abc].
    apply read_line_app, no_newline_abc.
Qed.

(** C4.  Two runs of the script that read the same line end the same way
    and write the same things, whatever else differs between them (what
    follows the line on standard input, what the shell answers).  When the
    line is text made of Unicode characters, ASCII or not, empty or not,
    both runs print, last, one and the same digest of 64 lowercase
    hexadecimal characters. *)
Theorem two_runs_same_digest (line text1 text2 rest1 rest2 : str)
    (sh1 sh2 : string -> Z) :
  read_line text1 = Some (line, rest1) ->
  read_line text2 = Some (line, rest2) ->
  fst (run text1 sh1) = fst (run text2 sh2) /\
  trace (snd (run text1 sh1)) = trace (snd (run text2 sh2)) /\
  (valid_text line ->
   exists d,
     digest_hex line = Some d /\
     last (trace (snd (run text1 sh1))) = Some (Stdout (digest_line d)) /\
     last (trace (snd (run text2 sh2))) = Some (Stdout (digest_line d)) /\
     String.length d = 64%nat /\
     forallb is_lower_hex (list_ascii_of_string d) = true).
Proof.
  intros R1 R2.
  destruct (encode line) as [b|] eqn:E.
  - rewrite (run_encodable text1 sh1 line rest1 b R1 E).
    rewrite (run_encodable text2 sh2 line rest2 b R2 E).
    cbn [fst snd trace]. split; [reflexivity|split; [reflexivity|]].
    intros _. exists (hexdigest (keccak_256 b)).
    unfold digest_hex. rewrite E. cbn [option_map].
    destruct (hexdigest_shape (keccak_256 b)) as [Hlen Hhex].
    rewrite last_digest_line. auto.
  - rewrite (run_unencodable text1 sh1 line rest1 R1 E).
    rewrite (run_unencodable text2 sh2 line rest2 R2 E).
    cbn [fst snd trace]. split; [reflexivity|split; [reflexivity|]].
    intros Hv. apply encode_valid_text in Hv as [b Hb]. congruence.
Qed.

(** A name with an accent, a euro sign and an emoji, read in two different
    surroundings. *)
Lemma two_runs_same_digest_witness :
  let line := [0x41; 0xE9; 0x20AC; 0x1F600] in
  let text1 := line ++ [LF] in
  let text2 := line ++ LF :: lit "more" in
  read_line text1 = Some (line, []) /\
  read_line text2 = Some (line, lit "more") /\
  fst (run text1 (fun _ => 0)) = fst (run text2 (fun _ => 1)) /\
  trace (snd (run text1 (fun _ => 0))) = trace (snd (run text2 (fun _ => 1))).
Proof.
  intros line text1 text2.
  assert (R1 : read_line text1 = Some (line, [])) by reflexivity.
  assert (R2 : read_line text2 = Some (line, lit "more")) by reflexivity.
  split; [exact R1|split; [exact R2|]].
  destruct (two_runs_same_digest line text1 text2 [] (lit "more")
              (fun _ => 0) (fun _ => 1) R1 R2) as (H1 & H2 & _).
  split; [exact H1|exact H2].
Defined.

(** C5.  In a run that gets to the end, the name is the line of standard
    input as [read_line] cuts it (the characters before the first newline,
    untouched), the bytes given to Keccak-256 are the UTF-8 encoding of that
    name as RFC 3629 defines it, the hash object is the one made from those
    bytes, and the digest printed is its digest. *)
Theorem hashed_bytes_are_utf8_of_line (text : str) (sh : string -> Z)
    (g : globals) (w : world) :
  run text sh = (inr g, w) ->
  (exists rest, read_line text = Some (nama_ibu g, rest) /\
     (text = nama_ibu g ++ LF :: rest \/ text = nama_ibu g)) /\
  encode (nama_ibu g) = Some (encoded g) /\
  utf8_rfc3629 (nama_ibu g) = Some (map Z_of_byte (encoded g)) /\
  obj_encoded g = keccak_256 (encoded g) /\
  last (trace w) =
    Some (Stdout (digest_line (hexdigest (keccak_256 (encoded g))))).
Proof.
  intros H.
  destruct (run_inr _ _ _ _ H) as (line & rest & b & R & E & -> & ->).
  cbn [nama_ibu encoded obj_encoded trace].
  split.
  { exists rest. split; [exact R|].
    destruct (read_line_Some _ _ _ R) as [_ [Ht|[Ht _]]]; auto. }
  split; [exact E|].
  split; [rewrite <- encode_rfc3629, E; reflexivity|].
  split; [reflexivity|apply last_digest_line].
Qed.

Lemma hashed_bytes_are_utf8_of_line_witness :
  let text := [0x41; 0xE9; 0x20AC; 0x1F600; LF] in
  let g := Globals [0x41; 0xE9; 0x20AC; 0x1F600]
             [x41; xc3; xa9; xe2; x82; xac; xf0; x9f; x98; x80]
             (keccak_256 [x41; xc3; xa9; xe2; x82; xac; xf0; x9f; x98; x80]) in
  run text (fun _ => 1) = (inr g, snd (run text (fun _ => 1))) /\
  utf8_rfc3629 (nama_ibu g) = Some (map Z_of_byte (encoded g)).
Proof.
  intros text g.
  assert (H : run text (fun _ => 1) = (inr g, snd (run text (fun _ => 1))))
    by (vm_compute; reflexivity).
  split; [exact H|].
  exact (proj1 (proj2 (proj2
           (hashed_bytes_are_utf8_of_line text (fun _ => 1) g _ H)))).
Defined.

(** C6.  Whatever line is read, the fifth thing the script does is to write
    its label, a space, the line exactly as it was read and a newline; the
    trace up to there is the banner, the prompt and the clearing of the
    screen, so no digest has been written yet, and nothing but the digest
    line comes after it. *)
Theorem echo_before_digest (text line rest : str) (sh : string -> Z) :
  read_line text = Some (line, rest) ->
  let t := trace (snd (run text sh)) in
  let echo := Stdout (lit sebelum ++ lit " " ++ line ++ [LF]) in
  t !! 4%nat = Some echo /\
  take 4 t = banner ++ [System "CLS"] /\
  (drop 5 t = [] \/
   exists b, encode line = Some b /\
     drop 5 t = [Stdout (digest_line (hexdigest (keccak_256 b)))] /\
     occurs_before echo
       (Stdout (digest_line (hexdigest (keccak_256 b)))) t).
Proof.
  intros R t echo. subst t echo.
  destruct (encode line) as [b|] eqn:E.
  - rewrite (run_encodable text sh line rest b R E). cbn [snd trace].
    split; [reflexivity|split; [reflexivity|]].
    right. exists b. split; [reflexivity|split; [reflexivity|]].
    exists 4%nat, 5%nat. repeat split; lia.
  - rewrite (run_unencodable text sh line rest R E). cbn [snd trace].
    split; [reflexivity|split; [reflexivity|]].
    left. reflexivity.
Qed.

Lemma echo_before_digest_witness :
  read_line (lit "abc" ++ [LF]) = Some (lit "abc", []) /\
  trace (snd (run (lit "abc" ++ [LF]) (fun _ => 1))) !! 4%nat =
    Some (Stdout (lit sebelum ++ lit " " ++ lit "abc" ++ [LF])).
Proof.
  assert (R : read_line (lit "abc" ++ [LF]) = Some (lit "abc", []))
    by reflexivity.
  split; [exact R|].
  exact (proj1 (echo_before_digest _ _ _ (fun _ => 1) R)).
Defined.

(** C7, as the specification words it: the screen would be cleared after
    the name is written and before the digest is.  On the line abc it is
    not: the only command of the trace comes before the echo. *)
Lemma clear_is_not_between_outputs :
  ~ clear_between
      (Stdout (echo_line (lit "abc")))
      (Stdout (digest_line
         "4e03657aea45a94fc7d47ba826c8d667c0d1e6e33a64a036ec44f58fa12d6c45"))
      (trace (snd (run (lit "abc" ++ [LF]) (fun _ => 0)))).
Proof.
  intros [(i & j & Hi & Hj & Hlt) _].
  rewrite (proj2 (proj2 abc_line_digest) [] (fun _ => 0)) in Hi, Hj.
  cbn [snd trace] in Hi, Hj.
  assert (j = 3%nat) as ->.
  { vm_compute in Hj.
    do 3 (destruct j as [|j]; [discriminate Hj|]).
    destruct j as [|j]; [reflexivity|].
    do 2 (destruct j as [|j]; [discriminate Hj|]). discriminate Hj. }
  do 3 (destruct i as [|i]; [vm_compute in Hi; discriminate Hi|]).
  lia.
Qed.

(** C7, amended.  The screen is cleared after the prompt is written and the
    line is read, and before both outputs: before the name is written, which
    is itself before the digest is written.  The clearing is never between
    the two. *)
Theorem clear_before_both_outputs (text line rest : str) (b : bytes)
    (sh : string -> Z) :
  read_line text = Some (line, rest) ->
  encode line = Some b ->
  let t := trace (snd (run text sh)) in
  let echo := Stdout (echo_line line) in
  let dig := Stdout (digest_line (hexdigest (keccak_256 b))) in
  t = banner ++ [System "CLS"; echo; dig] /\
  occurs_before (Stdout (lit "Masukan Nama Ibu kandung: ")) (System "CLS") t /\
  occurs_before (System "CLS") echo t /\
  occurs_before echo dig t /\
  ~ clear_between echo dig t.
Proof.
  intros R E t echo dig. subst t echo dig.
  rewrite (run_encodable text sh line rest b R E). cbn [snd trace].
  split; [reflexivity|].
  split; [exists 2%nat, 3%nat; repeat split; lia|].
  split; [exists 3%nat, 4%nat; repeat split; lia|].
  split; [exists 4%nat, 5%nat; repeat split; lia|].
  intros [(i & j & Hi & Hj & Hlt) _].
  assert (Hd : exists tl, echo_line line = 78 :: tl) by (eexists; reflexivity).
  destruct Hd as [tl Hd]. rewrite Hd in Hi, Hj.
  revert Hi Hj.
  generalize (digest_line (hexdigest (keccak_256 b))).
  intros dig Hi Hj.
  assert (j = 3%nat) as ->.
  { do 3 (destruct j as [|j]; [discriminate Hj|]).
    destruct j as [|j]; [reflexivity|].
    do 2 (destruct j as [|j]; [discriminate Hj|]). discriminate Hj. }
  do 3 (destruct i as [|i]; [vm_compute in Hi; discriminate Hi|]).
  lia.
Qed.

Lemma clear_before_both_outputs_witness :
  read_line (lit "abc" ++ [LF]) = Some (lit "abc", []) /\
  encode (lit "abc") = Some [x61; x62; x63] /\
  occurs_before (System "CLS") (Stdout (echo_line (lit "abc")))
    (trace (snd (run (lit "abc" ++ [LF]) (fun _ => 0)))).
Proof.
  assert (R : read_line (lit "abc" ++ [LF]) = Some (lit "abc", []))
    by reflexivity.
  split; [exact R|split; [exact encode_abc|]].
  exact (proj1 (proj2 (proj2
           (clear_before_both_outputs _ _ _ _ (fun _ => 0) R encode_abc)))).
Defined.

(** C10.  The script hands the command CLS to [os.system], which gives back
    a status and raises nothing; the status is dropped.  So two runs on the
    same standard input, with shells that answer differently, end the same
    way, with the same names bound, the same events, the same digest
    printed; in particular a failing CLS neither stops the script nor
    changes what it prints. *)
Theorem clear_status_is_ignored :
  (forall command w,
     os_system command w =
       (inr (shell w command),
        World (stdin w) (shell w) (trace w ++ [System command]))) /\
  (forall text sh1 sh2,
     fst (run text sh1) = fst (run text sh2) /\
     trace (snd (run text sh1)) = trace (snd (run text sh2)) /\
     stdin (snd (run text sh1)) = stdin (snd (run text sh2))) /\
  (forall text sh line rest,
     read_line text = Some (line, rest) ->
     trace (snd (run text sh)) !! 3%nat = Some (System "CLS") /\
     fst (run text sh) <> inl EOFError /\
     (valid_text line -> exit_status (fst (run text sh)) = 0)).
Proof.
  split; [reflexivity|split].
  - intros text sh1 sh2.
    destruct (read_line text) as [[line rest]|] eqn:R.
    + destruct (encode line) as [b|] eqn:E.
      * rewrite !(run_encodable text _ line rest b R E). auto.
      * rewrite !(run_unencodable text _ line rest R E). auto.
    + rewrite !(run_eof text _ R). auto.
  - intros text sh line rest R.
    destruct (encode line) as [b|] eqn:E.
    + rewrite (run_encodable text _ line rest b R E). cbn [fst snd trace].
      split; [reflexivity|]. split; [discriminate|]. reflexivity.
    + rewrite (run_unencodable text _ line rest R E). cbn [fst snd trace].
      split; [reflexivity|]. split; [discriminate|].
      intros Hv. apply encode_valid_text in Hv as [b Hb]. congruence.
Qed.

(** A shell where CLS fails with status 127, as where the command does not
    exist. *)
Lemma clear_status_is_ignored_witness :
  read_line (lit "abc" ++ [LF]) = Some (lit "abc", []) /\
  trace (snd (run (lit "abc" ++ [LF]) (fun _ => 127))) !! 3%nat =
    Some (System "CLS") /\
  fst (run (lit "abc" ++ [LF]) (fun _ => 127)) =
  fst (run (lit "abc" ++ [LF]) (fun _ => 0)).
Proof.
  assert (R : read_line (lit "abc" ++ [LF]) = Some (lit "abc", []))
    by reflexivity.
  split; [exact R|split].
  - exact (proj1 (proj2 (proj2 clear_status_is_ignored) _ (fun _ => 127) _ _ R)).
  - exact (proj1 (proj1 (proj2 clear_status_is_ignored)
                    (lit "abc" ++ [LF]) (fun _ => 127) (fun _ => 0))).
Defined.

End Claims.

(** ** Further properties of the script *)

Section Script.

Import Keccak.

Lemma digest_line_head (d : string) :
  exists tl, digest_line d =
    [78; 97; 109; 97; 32; 73; 98; 117; 32; 107; 97; 110; 100; 117; 110; 103;
     32; 115; 101; 116] ++ tl.
Proof. eexists. reflexivity. Qed.

Lemma echo_line_head (s : str) :
  exists tl, echo_line s =
    [78; 97; 109; 97; 32; 73; 98; 117; 32; 107; 97; 110; 100; 117; 110; 103;
     32; 115; 101; 98] ++ tl.
Proof. eexists. reflexivity. Qed.

(** No name makes the echo pass for a digest line: the two labels part
    ways at their twentieth character. *)
Lemma echo_is_no_digest_line (s : str) (d : string) :
  Stdout (echo_line s) <> Stdout (digest_line d).
Proof.
  destruct (echo_line_head s) as [tl1 ->].
  destruct (digest_line_head d) as [tl2 ->].
  cbn [app]. intros H. discriminate H.
Qed.

Lemma banner_has_no_digest_line (d : string) :
  ~ In (Stdout (digest_line d)) banner.
Proof.
  destruct (digest_line_head d) as [tl ->]. cbn [app].
  intros H. vm_compute in H.
  destruct H as [H|[H|[H|[]]]]; discriminate H.
Qed.

(** A name that cannot be encoded is still echoed: the screen is cleared
    and the name written before [encode] is reached, then the script stops
    with [UnicodeEncodeError] and status 1, and no digest line is ever
    written. *)
Theorem unencodable_name_is_echoed_not_hashed (text line rest : str)
    (sh : string -> Z) :
  read_line text = Some (line, rest) ->
  ~ valid_text line ->
  run text sh =
    (inl UnicodeEncodeError,
     World rest sh (banner ++ [System "CLS"; Stdout (echo_line line)])) /\
  exit_status (fst (run text sh)) = 1 /\
  forall d, ~ In (Stdout (digest_line d)) (trace (snd (run text sh))).
Proof.
  intros R Hv.
  assert (E : encode line = None).
  { destruct (encode line) as [b|] eqn:E; [|reflexivity].
    exfalso. apply Hv, encode_valid_text. eauto. }
  rewrite (run_unencodable text sh line rest R E). cbn [fst snd trace].
  split; [reflexivity|split; [reflexivity|]].
  intros d H. apply in_app_or in H as [H|[H|[H|[]]]].
  - exact (banner_has_no_digest_line d H).
  - discriminate H.
  - exact (echo_is_no_digest_line line d H).
Qed.

Lemma unencodable_name_is_echoed_not_hashed_witness :
  read_line [0x41; 0xD800; LF] = Some ([0x41; 0xD800], []) /\
  ~ valid_text [0x41; 0xD800] /\
  exit_status (fst (run [0x41; 0xD800; LF] (fun _ => 0))) = 1.
Proof.
  assert (R : read_line [0x41; 0xD800; LF] = Some ([0x41; 0xD800], []))
    by reflexivity.
  assert (V : ~ valid_text [0x41; 0xD800]).
  { intros H. inversion H as [|? ? _ H']. inversion H' as [|? ? Hs _].
    discriminate Hs. }
  split; [exact R|split; [exact V|]].
  exact (proj1 (proj2
           (unencodable_name_is_echoed_not_hashed _ _ _ (fun _ => 0) R V))).
Defined.


End Script.

(** ** Further properties of the encoding and of the rendering *)

Section Encoding.

(** The four forms of an encoded character, with the bits of the code point
    named. *)
Lemma utf8_char_form (c : Z) (e : list Z) :
  utf8_rfc3629_char c = Some e ->
  (e = [c] /\ 0 <= c < 128) \/
  (exists a b, e = [192 + a; 128 + b] /\ c = 64 * a + b /\
     2 <= a < 32 /\ 0 <= b < 64) \/
  (exists a b d, e = [224 + a; 128 + b; 128 + d] /\
     c = 4096 * a + 64 * b + d /\
     0 <= a < 16 /\ 0 <= b < 64 /\ 0 <= d < 64) \/
  (exists a b d f, e = [240 + a; 128 + b; 128 + d; 128 + f] /\
     c = 262144 * a + 4096 * b + 64 * d + f /\
     0 <= a < 8 /\ 0 <= b < 64 /\ 0 <= d < 64 /\ 0 <= f < 64).
Proof.
  unfold utf8_rfc3629_char.
  destruct (Z.leb_spec 0 c), (Z.leb_spec c 127); cbn [andb].
  1: { intros Heq; injection Heq as <-. left. split; [reflexivity|lia]. }
  all: destruct (Z.leb_spec 128 c), (Z.leb_spec c 2047); cbn [andb].
  all: try (intros Heq; injection Heq as <-; right; left;
            exists (c / 64), (c mod 64);
            split; [reflexivity|Z.div_mod_to_equations; lia]).
  all: destruct (Z.leb_spec 55296 c), (Z.leb_spec c 57343); cbn [andb];
    try discriminate.
  all: destruct (Z.leb_spec 2048 c), (Z.leb_spec c 65535); cbn [andb].
  all: try (intros Heq; injection Heq as <-; right; right; left;
            exists (c / 4096), ((c / 64) mod 64), (c mod 64);
            split; [reflexivity|Z.div_mod_to_equations; lia]).
  all: destruct (Z.leb_spec 65536 c), (Z.leb_spec c 1114111); cbn [andb];
    try discriminate.
  all: intros Heq; injection Heq as <-; right; right; right;
    exists (c / 262144), ((c / 4096) mod 64), ((c / 64) mod 64), (c mod 64);
    split; [reflexivity|Z.div_mod_to_equations; lia].
Qed.

(** Two characters whose UTF-8 forms start the same byte sequence are the
    same character: no encoding is a prefix of another. *)
Lemma utf8_char_prefix_free (c1 c2 : Z) (e1 e2 r1 r2 : list Z) :
  utf8_rfc3629_char c1 = Some e1 ->
  utf8_rfc3629_char c2 = Some e2 ->
  e1 ++ r1 = e2 ++ r2 ->
  c1 = c2 /\ r1 = r2.
Proof.
  intros H1 H2 H.
  apply utf8_char_form in H1, H2.
  destruct H1 as [[-> ?]|[(?&?&->&->&?)|[(?&?&?&->&->&?)|(?&?&?&?&->&->&?)]]];
  destruct H2 as [[-> ?]|[(?&?&->&->&?)|[(?&?&?&->&->&?)|(?&?&?&?&->&->&?)]]];
  cbn [app] in H; simplify_eq; first [split; [lia|reflexivity] | lia].
Qed.

Lemma utf8_char_nonempty (c : Z) (e : list Z) :
  utf8_rfc3629_char c = Some e -> e <> [].
Proof.
  intros H. apply utf8_char_form in H.
  destruct H as [[-> ?]|[(?&?&->&?)|[(?&?&?&->&?)|(?&?&?&?&->&?)]]];
    discriminate.
Qed.

Lemma utf8_rfc3629_injective (s1 s2 zs : list Z) :
  utf8_rfc3629 s1 = Some zs -> utf8_rfc3629 s2 = Some zs -> s1 = s2.
Proof.
  revert s2 zs.
  induction s1 as [|c1 s1 IH]; intros [|c2 s2] zs H1 H2; cbn in H1, H2.
  - reflexivity.
  - injection H1 as <-.
    destruct (utf8_rfc3629_char c2) as [e2|] eqn:E2; [|discriminate].
    destruct (utf8_rfc3629 s2) as [r2|]; [|discriminate].
    injection H2 as H2. apply utf8_char_nonempty in E2.
    destruct e2; [congruence|discriminate].
  - injection H2 as <-.
    destruct (utf8_rfc3629_char c1) as [e1|] eqn:E1; [|discriminate].
    destruct (utf8_rfc3629 s1) as [r1|]; [|discriminate].
    injection H1 as H1. apply utf8_char_nonempty in E1.
    destruct e1; [congruence|discriminate].
  - destruct (utf8_rfc3629_char c1) as [e1|] eqn:E1; [|discriminate].
    destruct (utf8_rfc3629 s1) as [r1|] eqn:R1; [|discriminate].
    destruct (utf8_rfc3629_char c2) as [e2|] eqn:E2; [|discriminate].
    destruct (utf8_rfc3629 s2) as [r2|] eqn:R2; [|discriminate].
    injection H1 as <-. injection H2 as H2. symmetry in H2.
    destruct (utf8_char_prefix_free _ _ _ _ _ _ E1 E2 H2) as [-> ->].
    f_equal. exact (IH s2 r2 eq_refl R2).
Qed.

(** Line 11, [nama_ibu.encode()], loses nothing: two names with the same
    encoding are the same name.  Names that differ reach the hash as
    different byte sequences. *)
Theorem encode_injective (s1 s2 : str) (b : bytes) :
  encode s1 = Some b -> encode s2 = Some b -> s1 = s2.
Proof.
  intros H1 H2.
  apply (utf8_rfc3629_injective s1 s2 (map Z_of_byte b));
    rewrite <- encode_rfc3629; [rewrite H1|rewrite H2]; reflexivity.
Qed.

Lemma encode_injective_witness :
  encode [0x41; 0xE9] = Some [x41; xc3; xa9] /\
  encode (0x41 :: [0xE9]) = Some [x41; xc3; xa9] /\
  [0x41; 0xE9] = 0x41 :: [0xE9].
Proof.
  assert (H : encode [0x41; 0xE9] = Some [x41; xc3; xa9])
    by (vm_compute; reflexivity).
  split; [exact H|split; [exact H|]].
  exact (encode_injective [0x41; 0xE9] (0x41 :: [0xE9]) _ H H).
Defined.

Lemma encode_char_ascii (c : code_point) :
  0 <= c < 128 -> encode_char c = Some [byte_of_Z c].
Proof.
  intros Hc. unfold encode_char, is_code_point.
  destruct (Z.leb_spec 0 c); [|lia].
  destruct (Z.leb_spec c 0x10FFFF); [|lia]. cbn [andb negb].
  destruct (Z.ltb_spec c 0x80); [reflexivity|lia].
Qed.

(** A name written in ASCII is hashed as its characters, one byte each:
    the encoding has the length of the name and its bytes are the codes of
    the characters. *)
Theorem encode_ascii (s : str) :
  Forall (fun c => 0 <= c < 128) s ->
  encode s = Some (map byte_of_Z s) /\
  map Z_of_byte (map byte_of_Z s) = s /\
  length (map byte_of_Z s) = length s.
Proof.
  intros H. split; [|split].
  - induction H as [|c s Hc Hs IH]; cbn [encode map]; [reflexivity|].
    rewrite (encode_char_ascii c Hc), IH. reflexivity.
  - induction H as [|c s Hc Hs IH]; cbn [map]; [reflexivity|].
    rewrite IH, Z_of_byte_of_Z by lia. reflexivity.
  - apply length_map.
Qed.

Lemma encode_ascii_witness :
  Forall (fun c => 0 <= c < 128) (lit "Siti") /\
  encode (lit "Siti") = Some (map byte_of_Z (lit "Siti")).
Proof.
  assert (H : Forall (fun c => 0 <= c < 128) (lit "Siti"))
    by (repeat constructor; vm_compute; congruence).
  split; [exact H|]. exact (proj1 (encode_ascii (lit "Siti") H)).
Defined.

Lemma encode_char_length (c : code_point) (e : bytes) :
  encode_char c = Some e -> (1 <= length e <= 4)%nat.
Proof.
  unfold encode_char.
  destruct (negb (is_code_point c)); [discriminate|].
  destruct (c <? 128); [intros H; injection H as <-; cbn; lia|].
  destruct (c <? 2048); [intros H; injection H as <-; cbn; lia|].
  destruct (is_surrogate c); [discriminate|].
  destruct (c <? 65536); intros H; injection H as <-; cbn; lia.
Qed.

(** The encoded name has at least as many bytes as the name has characters
    and at most four times as many; the empty name, and only it, encodes to
    no bytes. *)
Theorem encode_length_bounds (s : str) (b : bytes) :
  encode s = Some b ->
  (length s <= length b <= 4 * length s)%nat /\ (b = [] <-> s = []).
Proof.
  revert b. induction s as [|c s IH]; intros b H; cbn in H.
  - injection H as <-. cbn. split; [lia|tauto].
  - destruct (encode_char c) as [e|] eqn:E; [|discriminate].
    destruct (encode s) as [bs|]; [|discriminate].
    injection H as <-. apply encode_char_length in E.
    destruct (IH bs eq_refl) as [Hl _].
    rewrite length_app. cbn [length]. split; [lia|].
    split; [|discriminate].
    intros Hnil. destruct e; [cbn in E; lia|discriminate].
Qed.

Lemma encode_length_bounds_witness :
  encode [0x41; 0xE9; 0x20AC; 0x1F600] =
    Some [x41; xc3; xa9; xe2; x82; xac; xf0; x9f; x98; x80] /\
  (4 <= 10 <= 4 * 4)%nat.
Proof.
  assert (H : encode [0x41; 0xE9; 0x20AC; 0x1F600] =
              Some [x41; xc3; xa9; xe2; x82; xac; xf0; x9f; x98; x80])
    by (vm_compute; reflexivity).
  split; [exact H|]. exact (proj1 (encode_length_bounds _ _ H)).
Defined.

End Encoding.

Section Rendering.

Import Keccak.

Lemma byte_of_hex_of_byte (b : byte) :
  byte_of_hex (hex_digit (Z.shiftr (Z_of_byte b) 4))
              (hex_digit (Z.land (Z_of_byte b) 15)) = b.
Proof. destruct b; vm_compute; reflexivity. Qed.

Lemma unhexlify_hex_chars (bs : bytes) :
  unhexlify (flat_map hex_of_byte bs) = bs.
Proof.
  induction bs as [|b bs IH]; [reflexivity|].
  cbn [flat_map hex_of_byte app unhexlify].
  rewrite byte_of_hex_of_byte, IH. reflexivity.
Qed.

Lemma hexlify_injective (b1 b2 : bytes) : hexlify b1 = hexlify b2 -> b1 = b2.
Proof.
  unfold hexlify. intros H.
  apply (f_equal list_ascii_of_string) in H.
  rewrite !list_ascii_of_string_of_list_ascii in H.
  rewrite <- (unhexlify_hex_chars b1), <- (unhexlify_hex_chars b2).
  congruence.
Qed.

Lemma lit_injective (s1 s2 : string) : lit s1 = lit s2 -> s1 = s2.
Proof.
  unfold lit. intros H.
  rewrite <- (string_of_list_ascii_of_string s1),
          <- (string_of_list_ascii_of_string s2).
  f_equal.
  revert H. generalize (list_ascii_of_string s1) (list_ascii_of_string s2).
  induction l as [|a l IH]; intros [|a' l'] H; cbn in H; try discriminate.
  - reflexivity.
  - injection H as Ha Hl. f_equal; [|exact (IH _ Hl)].
    apply N2Z.inj in Ha.
    rewrite <- (ascii_N_embedding a), <- (ascii_N_embedding a'). congruence.
Qed.

Lemma digest_line_injective (d1 d2 : string) :
  digest_line d1 = digest_line d2 -> d1 = d2.
Proof.
  unfold digest_line. generalize (lit setelah) (lit " ").
  intros lab sp H.
  apply app_inv_head in H. apply app_inv_head in H.
  apply app_inv_tail in H. exact (lit_injective _ _ H).
Qed.

(** The last line printed is a faithful rendering of the digest: reading
    the hexadecimal digits back gives the 32 bytes, and two hash objects
    make the script print the same line exactly when their digests are the
    same bytes. *)
Theorem printed_digest_is_lossless (o1 o2 : sponge) :
  unhexlify (list_ascii_of_string (hexdigest o1)) = digest o1 /\
  (Stdout (digest_line (hexdigest o1)) = Stdout (digest_line (hexdigest o2))
   <-> digest o1 = digest o2).
Proof.
  split.
  - unfold hexdigest, hexlify.
    rewrite list_ascii_of_string_of_list_ascii. apply unhexlify_hex_chars.
  - split.
    + intros H. apply hexlify_injective.
      change (hexdigest o1 = hexdigest o2).
      apply digest_line_injective.
      generalize dependent (digest_line (hexdigest o1)).
      generalize (digest_line (hexdigest o2)).
      intros t2 t1 H. congruence.
    + intros H. unfold hexdigest. rewrite H. reflexivity.
Qed.

Lemma length_keccak_round (A : lanes) (rc : Z) :
  length (keccak_round A rc) = 25%nat.
Proof.
  unfold keccak_round, iota, chi, lanes.
  rewrite length_alter, length_map, length_seq. reflexivity.
Qed.

Lemma length_rounds (rcs : list Z) (A : lanes) :
  rcs <> [] -> length (fold_left keccak_round rcs A) = 25%nat.
Proof.
  revert A. induction rcs as [|rc rcs IH]; intros A Hne; [congruence|].
  cbn [fold_left]. destruct rcs as [|rc' rcs'].
  - apply length_keccak_round.
  - apply IH. discriminate.
Qed.

Lemma length_keccak_f (A : lanes) : length (keccak_f A) = 25%nat.
Proof. apply length_rounds. discriminate. Qed.

Lemma absorb_byte_invariant (s : sponge) (b : byte) :
  length (state s) = 25%nat ->
  (byteIOIndex s < rate_in_bytes)%nat ->
  length (state (absorb_byte s b)) = 25%nat /\
  byteIOIndex (absorb_byte s b) = (S (byteIOIndex s) mod rate_in_bytes)%nat.
Proof.
  intros Hl Hi. unfold absorb_byte, rate_in_bytes in *.
  destruct (Nat.eqb_spec (S (byteIOIndex s)) 136) as [E|E]; cbn [state byteIOIndex].
  - rewrite E. split; [apply length_keccak_f|reflexivity].
  - split; [unfold xor_byte, lanes in *; rewrite length_alter; exact Hl|].
    symmetry. apply Nat.mod_small. lia.
Qed.

Lemma absorb_invariant (data : bytes) (s : sponge) :
  length (state s) = 25%nat ->
  (byteIOIndex s < rate_in_bytes)%nat ->
  length (state (absorb s data)) = 25%nat /\
  byteIOIndex (absorb s data) =
    ((byteIOIndex s + length data) mod rate_in_bytes)%nat.
Proof.
  revert s. unfold absorb.
  induction data as [|b data IH]; intros s Hl Hi; cbn [fold_left length].
  - split; [exact Hl|]. rewrite Nat.add_0_r.
    symmetry. apply Nat.mod_small. exact Hi.
  - destruct (absorb_byte_invariant s b Hl Hi) as [Hl' Hi'].
    assert (Hlt : (byteIOIndex (absorb_byte s b) < rate_in_bytes)%nat).
    { rewrite Hi'. apply Nat.mod_upper_bound. discriminate. }
    destruct (IH _ Hl' Hlt) as [Hl'' Hi''].
    split; [exact Hl''|]. rewrite Hi'', Hi'.
    rewrite Nat.Div0.add_mod_idemp_l. f_equal. lia.
Qed.

(** The hash object of line 12 keeps its shape whatever is hashed: 25
    lanes, and a position in the current block that is the number of bytes
    absorbed modulo the rate of 136, so always below the rate. *)
Theorem keccak_256_block_position (data : bytes) :
  length (state (keccak_256 data)) = 25%nat /\
  byteIOIndex (keccak_256 data) = (length data mod 136)%nat /\
  (byteIOIndex (keccak_256 data) < 136)%nat.
Proof.
  destruct (absorb_invariant data initial eq_refl) as [Hl Hi].
  { cbn. unfold rate_in_bytes. lia. }
  unfold keccak_256. cbn [initial byteIOIndex] in Hi.
  rewrite Nat.add_0_l in Hi. unfold rate_in_bytes in Hi.
  split; [exact Hl|split; [exact Hi|]].
  rewrite Hi. apply Nat.mod_upper_bound. discriminate.
Qed.

End Rendering.

(** ** The script as a process: its runs *)

Section ProcessRuns.

Import Process Keccak.

Variable env : environment.

Lemma ascii_is_encoded (s : str) :
  encodes_ascii env -> forallb is_ascii s = true ->
  forallb (stdout_encodes env) s = true.
Proof.
  intros Ha H. rewrite forallb_forall in *. intros ch Hin.
  apply Ha. specialize (H ch Hin). unfold is_ascii in H.
  apply andb_prop in H as [H1 H2]. lia.
Qed.


Lemma hexdigest_is_ascii (obj : sponge) :
  forallb is_ascii (lit (hexdigest obj)) = true.
Proof.
  destruct (hexdigest_shape obj) as [_ H].
  unfold lit. rewrite forallb_forall in *. intros ch Hin.
  apply in_map_iff in Hin as (a & <- & Ha). specialize (H a Ha).
  unfold is_lower_hex in H. unfold is_ascii.
  assert (nat_of_ascii a <= 102)%nat.
  { apply orb_prop in H as [H|H]; apply andb_prop in H as [_ H];
      apply Nat.leb_le in H; lia. }
  unfold nat_of_ascii in *. lia.
Qed.


Hypothesis ascii : encodes_ascii env.

Let b1 := lit ("Implementasi Keccak 256 di python" ++ nl).
Let b2 := lit "+++++++++++++++++++++++++++++++++++++".


Let shown (prompt : str) : event :=
  if interactive env then Stderr prompt else Stdout prompt.

Let before_read : list event :=
  [Stdout b1; Stdout [LF]; Stdout b2; Stdout [LF]; shown prompt_text].

Lemma ascii_b1 : forallb (stdout_encodes env) b1 = true.
Proof. apply ascii_is_encoded; [exact ascii|vm_compute; reflexivity]. Qed.

Lemma ascii_b2 : forallb (stdout_encodes env) b2 = true.
Proof. apply ascii_is_encoded; [exact ascii|vm_compute; reflexivity]. Qed.

Lemma ascii_newline : forallb (stdout_encodes env) [LF] = true.
Proof. apply ascii_is_encoded; [exact ascii|vm_compute; reflexivity]. Qed.

Lemma ascii_space : forallb (stdout_encodes env) (lit " ") = true.
Proof. apply ascii_is_encoded; [exact ascii|vm_compute; reflexivity]. Qed.

Lemma ascii_prompt : forallb (stdout_encodes env) prompt_text = true.
Proof. apply ascii_is_encoded; [exact ascii|vm_compute; reflexivity]. Qed.

Lemma ascii_sebelum : forallb (stdout_encodes env) (lit sebelum) = true.
Proof. apply ascii_is_encoded; [exact ascii|vm_compute; reflexivity]. Qed.

Lemma ascii_setelah : forallb (stdout_encodes env) (lit setelah) = true.
Proof. apply ascii_is_encoded; [exact ascii|vm_compute; reflexivity]. Qed.

Ltac labels_encoded :=
  fold b1 b2 prompt_text;
  rewrite ?ascii_b1, ?ascii_b2, ?ascii_newline, ?ascii_space, ?ascii_prompt,
    ?ascii_sebelum, ?ascii_setelah;
  cbv beta iota.

Lemma run_at_eof :
  stdin_is env = AtEOF -> run env = (inl EOFError, before_read).
Proof.
  intros H. process_steps. rewrite H. process_steps. labels_encoded.
  reflexivity.
Qed.



Lemma run_name_not_encodable (name : str) :
  stdin_is env = Line name ->
  forallb (stdout_encodes env) name = true ->
  encode name = None ->
  run env =
    (inl UnicodeEncodeError,
     before_read ++
     [System "CLS"; Stdout (lit sebelum); Stdout (lit " "); Stdout name;
      Stdout [LF]]).
Proof.
  intros H Hn E. process_steps. rewrite H. process_steps. labels_encoded.
  rewrite Hn. cbv beta iota. labels_encoded. rewrite E. reflexivity.
Qed.

Lemma run_name_hashed (name : str) (b : bytes) :
  stdin_is env = Line name ->
  forallb (stdout_encodes env) name = true ->
  encode name = Some b ->
  run env =
    (inr (Globals name b (keccak_256 b)),
     before_read ++
     [System "CLS"; Stdout (lit sebelum); Stdout (lit " "); Stdout name;
      Stdout [LF]; Stdout (lit setelah); Stdout (lit " ");
      Stdout (lit (hexdigest (keccak_256 b))); Stdout [LF]]).
Proof.
  intros H Hn E. process_steps. rewrite H. process_steps. labels_encoded.
  rewrite Hn. cbv beta iota. labels_encoded. rewrite E. cbv beta iota.
  labels_encoded.
  rewrite (ascii_is_encoded _ ascii (hexdigest_is_ascii (keccak_256 b))).
  cbv beta iota. labels_encoded. reflexivity.
Qed.

End ProcessRuns.

(** The first model is the process in those surroundings: the same end,
    the same text on standard output, the same command. *)
Lemma run_is_process_when_redirected (text : str) (sh : string -> Z) :
  let r := run text sh in
  let p := Process.run (redirected text sh) in
  match fst r, fst p with
  | inr g, inr g' => g = g'
  | inl e, inl e' => as_process_exn e = e'
  | _, _ => False
  end /\
  Process.stdout_text (snd p) = printed (trace (snd r)).
Proof.
  assert (Ha : Process.encodes_ascii (redirected text sh))
    by (intros ch _; reflexivity).
  assert (Ht : forall s,
             forallb (Process.stdout_encodes (redirected text sh)) s = true).
  { intros s. apply forallb_forall. reflexivity. }
  intros r p. subst r p.
  destruct (read_line text) as [[line rest]|] eqn:R.
  - assert (C : Process.stdin_is (redirected text sh) = Process.Line line).
    { unfold redirected. rewrite R. reflexivity. }
    destruct (encode line) as [b|] eqn:E.
    + rewrite (run_encodable text sh line rest b R E).
      rewrite (run_name_hashed _ Ha line b C (Ht line) E).
      split; [reflexivity|]. cbn [snd trace fst].
      unfold Process.stdout_text, printed, banner, echo_line, digest_line.
      cbn [flat_map app Process.interactive redirected].
      rewrite <- ?app_assoc. reflexivity.
    + rewrite (run_unencodable text sh line rest R E).
      rewrite (run_name_not_encodable _ Ha line C (Ht line) E).
      split; [reflexivity|]. cbn [snd trace fst].
      unfold Process.stdout_text, printed, banner, echo_line.
      cbn [flat_map app Process.interactive redirected].
      rewrite <- ?app_assoc. reflexivity.
  - assert (C : Process.stdin_is (redirected text sh) = Process.AtEOF).
    { unfold redirected. rewrite R. reflexivity. }
    rewrite (run_eof text sh R). rewrite (run_at_eof _ Ha C).
    split; reflexivity.
Qed.

Section ProcessClaims.

Import Process Keccak.




End ProcessClaims.
